(** * Shallow embedding of src/api/index.py (TPN Locations API)

    The SQL table [locations] is modelled as its list of rows in store order.
    Keys are handed out as SQLite (the engine of the default [DATABASE_URL])
    does for an [INTEGER PRIMARY KEY] column: one more than the largest key
    in the table, 1 when it is empty.  Every
    request handler is a computation in a small state/error monad over that
    store: the session only writes the store on [db.commit()] (or on the DDL
    of [drop_all]/[create_all], which is committed at once), so an exception
    raised before a commit leaves the store as it was. *)

From Stdlib Require Import String Ascii List ZArith Bool Lia.
From Stdlib Require Import Sorting.Sorted Sorting.Permutation.
Import ListNotations.
Open Scope Z_scope.

(** ** Data model *)

(** [class DBLocation(Base)]: every non-key column is nullable; the column
    stored as [layout_info] is the mapped attribute [layout]. *)
Record DBLocation := mkLoc {
  id : Z;
  name : option string;
  loca : option string;
  img : option string;
  desc : option string;
  facilities : option string;
  layout : option string
}.

(** The table: its rows in store order. *)
Record Store := mkStore {
  rows : list DBLocation
}.

(** A table freshly created by [Base.metadata.create_all]. *)
Definition empty_store : Store := {| rows := [] |}.

(** The key SQLite gives a row inserted without one: the largest key plus 1,
    or 1 in an empty table.  (SQLite only deviates once the largest key is
    2^63-1, which no table of this program reaches.) *)
Definition fresh_id (rs : list DBLocation) : Z :=
  match map id rs with
  | [] => 1
  | k :: ks => fold_left Z.max ks k + 1
  end.

(** The errors a handler raises, each an [HTTPException] (or FastAPI's own
    request validation). *)
Inductive error :=
| InvalidInput     (** 400: bad id, empty update body *)
| Forbidden        (** 403: wrong secret *)
| NotFound         (** 404: no row with that id *)
| Conflict         (** 400: database already seeded *)
| Unprocessable    (** 422: query parameter outside its declared bounds *)
| DataFormat       (** 500: no fixture record could be processed *)
| FixtureMissing   (** 500: db.json absent (or its list empty) *)
| FixtureInvalid   (** 500: db.json is not valid JSON *)
| ServerError.     (** 500: any other exception *)

Definition status_code (e : error) : Z :=
  match e with
  | InvalidInput => 400 | Forbidden => 403 | NotFound => 404
  | Conflict => 400 | Unprocessable => 422
  | DataFormat | FixtureMissing | FixtureInvalid | ServerError => 500
  end.

Inductive outcome (A : Type) := Ok (a : A) | Err (e : error).
Arguments Ok {A} a.
Arguments Err {A} e.

(** ** The request monad: state (the table) and errors (HTTPException) *)

Definition M (A : Type) := Store -> outcome A * Store.

Definition ret {A} (a : A) : M A := fun s => (Ok a, s).
Definition raise {A} (e : error) : M A := fun s => (Err e, s).
Definition bind {A B} (m : M A) (k : A -> M B) : M B :=
  fun s => match m s with
           | (Ok a, s') => k a s'
           | (Err e, s') => (Err e, s')
           end.
Definition get : M Store := fun s => (Ok s, s).
Definition put (s : Store) : M unit := fun _ => (Ok tt, s).

Notation "x <- m ;; k" := (bind m (fun x => k))
  (at level 61, m at next level, right associativity).
Notation "m ;;; k" := (bind m (fun _ => k))
  (at level 61, right associativity).

(** [db.query(DBLocation).filter(DBLocation.id == location_id).first()] *)
Definition query_first (i : Z) (rs : list DBLocation) : option DBLocation :=
  find (fun r => id r =? i) rs.

(** ** GET /locations/{location_id} *)
Definition read_location (location_id : Z) : M DBLocation :=
  if location_id <=? 0 then raise InvalidInput else
  s <- get ;;
  match query_first location_id (rows s) with
  | None => raise NotFound
  | Some location => ret location
  end.

(** ** DELETE /locations/{location_id}
    [db.delete(db_location); db.commit()] emits
    [DELETE FROM locations WHERE id = :pk]. *)
Definition delete_location (location_id : Z) : M unit :=
  if location_id <=? 0 then raise InvalidInput else
  s <- get ;;
  match query_first location_id (rows s) with
  | None => raise NotFound
  | Some db_location =>
      put {| rows := filter (fun r => negb (id r =? id db_location)) (rows s) |} ;;;
      ret tt
  end.

(** ** PATCH /locations/{location_id} *)

(** [class LocationUpdate(BaseModel)]: the outer option records whether the
    field was set in the request body ([exclude_unset]), the inner one is
    the Python [Optional[str]]. *)
Record LocationUpdate := mkUpdate {
  u_name : option (option string);
  u_loca : option (option string);
  u_img : option (option string);
  u_desc : option (option string);
  u_facilities : option (option string);
  u_layout_info : option (option string)
}.

(** [location_update.model_dump(exclude_unset=True)], in field order. *)
Definition model_dump_exclude_unset (u : LocationUpdate)
  : list (string * option string) :=
  let f k (o : option (option string)) :=
      match o with Some v => [(k, v)] | None => [] end in
  f "name"%string (u_name u) ++ f "loca"%string (u_loca u)
  ++ f "img"%string (u_img u) ++ f "desc"%string (u_desc u)
  ++ f "facilities"%string (u_facilities u)
  ++ f "layout_info"%string (u_layout_info u).

(** A loaded ORM instance: its mapped columns, and the plain Python
    attributes that [setattr] put on it under names that are not mapped. *)
Record Instance := mkInstance {
  obj_row : DBLocation;
  obj_attrs : list (string * option string)
}.

(** [setattr(db_location, key, value)]: the mapped attribute names of
    [DBLocation] are id, name, loca, img, desc, facilities and layout; any
    other name becomes an ordinary instance attribute. *)
Definition setattr (o : Instance) (key : string) (v : option string) : Instance :=
  let r := obj_row o in
  let upd r' := {| obj_row := r'; obj_attrs := obj_attrs o |} in
  if (key =? "name")%string then
    upd {| id := id r; name := v; loca := loca r; img := img r; desc := desc r;
           facilities := facilities r; layout := layout r |}
  else if (key =? "loca")%string then
    upd {| id := id r; name := name r; loca := v; img := img r; desc := desc r;
           facilities := facilities r; layout := layout r |}
  else if (key =? "img")%string then
    upd {| id := id r; name := name r; loca := loca r; img := v; desc := desc r;
           facilities := facilities r; layout := layout r |}
  else if (key =? "desc")%string then
    upd {| id := id r; name := name r; loca := loca r; img := img r; desc := v;
           facilities := facilities r; layout := layout r |}
  else if (key =? "facilities")%string then
    upd {| id := id r; name := name r; loca := loca r; img := img r; desc := desc r;
           facilities := v; layout := layout r |}
  else if (key =? "layout")%string then
    upd {| id := id r; name := name r; loca := loca r; img := img r; desc := desc r;
           facilities := facilities r; layout := v |}
  else {| obj_row := r; obj_attrs := (key, v) :: obj_attrs o |}.

(** [db.commit()] flushes the instance: [UPDATE locations SET ... WHERE id = :pk].
    [db.refresh] reloads the mapped columns only, so the returned instance
    keeps its extra attributes. *)
Definition update_location (location_id : Z) (location_update : LocationUpdate)
  : M Instance :=
  if location_id <=? 0 then raise InvalidInput else
  s <- get ;;
  match query_first location_id (rows s) with
  | None => raise NotFound
  | Some db_location =>
      match model_dump_exclude_unset location_update with
      | [] => raise InvalidInput
      | update_data =>
          let o := fold_left (fun o kv => setattr o (fst kv) (snd kv)) update_data
                     {| obj_row := db_location; obj_attrs := [] |} in
          put {| rows := map (fun r => if id r =? id db_location then obj_row o else r)
                               (rows s) |} ;;;
          ret o
      end
  end.

(** ** GET /locations *)

(** ASCII case folding, as [lower()] in SQLite (the engine behind the default
    [DATABASE_URL]) and as ILIKE folds ASCII letters in PostgreSQL. *)
Definition lower_ascii (c : ascii) : ascii :=
  let n := nat_of_ascii c in
  if (65 <=? n)%nat && (n <=? 90)%nat then ascii_of_nat (n + 32) else c.

Fixpoint lower_string (s : string) : string :=
  match s with
  | EmptyString => EmptyString
  | String c s' => String (lower_ascii c) (lower_string s')
  end.

(** SQL [LIKE]: [%] matches any sequence, [_] any one character; no escape
    character is declared by [ilike(f"%{x}%")].  Strings are modelled as
    byte strings, so [_] matches one character of ASCII text (one byte of a
    multi-byte UTF-8 character otherwise). *)
Fixpoint like (p s : string) : bool :=
  match p with
  | EmptyString => match s with EmptyString => true | String _ _ => false end
  | String c p' =>
      if Ascii.eqb c "%"%char then
        (fix any (t : string) : bool :=
           like p' t || match t with EmptyString => false | String _ t' => any t' end) s
      else
        match s with
        | EmptyString => false
        | String d s' => (Ascii.eqb c "_"%char || Ascii.eqb c d) && like p' s'
        end
  end.

(** [column.ilike(pattern)]: a NULL column never matches. *)
Definition ilike (col : option string) (pattern : string) : bool :=
  match col with
  | None => false
  | Some v => like (lower_string pattern) (lower_string v)
  end.

(** Python truthiness of an [Optional[str]] query parameter. *)
Definition truthy_str (o : option string) : option string :=
  match o with
  | Some EmptyString | None => None
  | Some s => Some s
  end.

(** The query parameters of [read_locations], [None] when absent. *)
Record ListQuery := mkQuery {
  q_search : option string;
  q_loca : option string;
  q_sort_by : option string;
  q_order : option string;
  q_limit : option Z
}.

Definition limit_of (q : ListQuery) : Z :=
  match q_limit q with Some l => l | None => 100 end.
Definition sort_by_of (q : ListQuery) : string :=
  match q_sort_by q with Some v => v | None => "id"%string end.
Definition order_of (q : ListQuery) : string :=
  match q_order q with Some v => v | None => "asc"%string end.

(** [Query(100, ge=1, le=100)]: FastAPI validates before the handler runs. *)
Definition limit_valid (q : ListQuery) : bool :=
  (1 <=? limit_of q) && (limit_of q <=? 100).

(** The two [.filter] calls, in the order the handler adds them. *)
Definition filter_loca (q : ListQuery) (rs : list DBLocation) : list DBLocation :=
  match truthy_str (q_loca q) with
  | None => rs
  | Some l => filter (fun r => ilike (loca r) ("%" ++ l ++ "%")) rs
  end.

Definition filter_search (q : ListQuery) (rs : list DBLocation) : list DBLocation :=
  match truthy_str (q_search q) with
  | None => rs
  | Some sr =>
      let search_term := ("%" ++ sr ++ "%")%string in
      filter (fun r => ilike (name r) search_term || ilike (desc r) search_term) rs
  end.

Definition filtered (q : ListQuery) (s : Store) : list DBLocation :=
  filter_search q (filter_loca q (rows s)).

(** [ORDER BY]: a SQL sort by a total preorder, realised as insertion sort. *)
Fixpoint insert_by {A} (le : A -> A -> bool) (x : A) (l : list A) : list A :=
  match l with
  | [] => [x]
  | y :: l' => if le x y then x :: y :: l' else y :: insert_by le x l'
  end.

Definition sort_by_le {A} (le : A -> A -> bool) (l : list A) : list A :=
  fold_right (insert_by le) [] l.

(** Text order with NULL first (SQLite's NULL ordering). *)
Definition opt_str_le (a b : option string) : bool :=
  match a, b with
  | None, _ => true
  | Some _, None => false
  | Some x, Some y => String.leb x y
  end.

Definition is_desc (order : string) : bool :=
  (lower_string order =? "desc")%string.

(** [column.desc() if order.lower() == "desc" else column.asc()] *)
Definition id_order (desc_ : bool) (a b : DBLocation) : bool :=
  if desc_ then id b <=? id a else id a <=? id b.
Definition name_order (desc_ : bool) (a b : DBLocation) : bool :=
  if desc_ then opt_str_le (name b) (name a) else opt_str_le (name a) (name b).

Definition apply_sort (sort_by order : string) (rs : list DBLocation) : list DBLocation :=
  if (sort_by =? "id")%string then sort_by_le (id_order (is_desc order)) rs
  else if (sort_by =? "name")%string then sort_by_le (name_order (is_desc order)) rs
  else rs.

Definition read_locations (q : ListQuery) : M (list DBLocation) :=
  if negb (limit_valid q) then raise Unprocessable else
  s <- get ;;
  let query := filtered q s in
  let query := apply_sort (sort_by_of q) (order_of q) query in
  ret (firstn (Z.to_nat (limit_of q)) query).

(** ** POST /api/seed and DELETE /api/reset *)

(** [class Settings(BaseSettings)] *)
Record Settings := mkSettings {
  DATABASE_URL : string;
  SEED_SECRET : string
}.

Set Warnings "-register-all".

(** JSON values as [json.load] returns them (numbers kept integral). *)
Inductive json :=
| JNull
| JBool (b : bool)
| JNum (n : Z)
| JStr (s : string)
| JArr (l : list json)
| JObj (kvs : list (string * json)).

(** Python truthiness of a loaded JSON value. *)
Definition truthy (v : json) : bool :=
  match v with
  | JNull => false
  | JBool b => b
  | JNum n => negb (n =? 0)
  | JStr s => negb (s =? "")%string
  | JArr l => match l with [] => false | _ => true end
  | JObj kvs => match kvs with [] => false | _ => true end
  end.

(** A Python dict as an association list; [json.load] keeps the last of
    duplicate keys, so lookup returns the last binding. *)
Definition dict_get {V} (k : string) (d : list (string * V)) : option V :=
  fold_left (fun acc kv => if (fst kv =? k)%string then Some (snd kv) else acc) d None.

(** [d[k] = v]: the binding of [k] is replaced (key order plays no part in
    what the handler does with the dict). *)
Definition dict_set {V} (k : string) (v : V) (d : list (string * V)) : list (string * V) :=
  filter (fun kv => negb (fst kv =? k)%string) d ++ [(k, v)].

Definition field_mapping : list (string * string) :=
  [("id", "id"); ("name", "name"); ("locations", "loca"); ("loca", "loca");
   ("img", "img"); ("desc", "desc"); ("facilities", "facilities");
   ("Layout", "layout"); ("layout_info", "layout")]%string.

Definition required_fields : list string := ["name"; "loca"; "img"; "desc"]%string.

(** One iteration of [for json_field, db_field in field_mapping.items()]. *)
Definition map_field (loc_data : list (string * json)) (processed : list (string * json))
  (m : string * string) : list (string * json) :=
  let (json_field, db_field) := m in
  match dict_get json_field loc_data with
  | None => processed
  | Some v => if (json_field =? "id")%string then processed
              else dict_set db_field v processed
  end.

Definition processed_data (loc_data : list (string * json)) : list (string * json) :=
  fold_left (map_field loc_data) field_mapping [].

(** [field not in processed_data or not processed_data[field]] *)
Definition field_ok (processed : list (string * json)) (field : string) : bool :=
  match dict_get field processed with
  | None => false
  | Some v => truthy v
  end.

(** The body of the [try] for one fixture entry: the processed record, or
    [None] when it raises (and the entry is skipped).  A non-object entry
    always raises: either [in]/indexing fails with TypeError, or no key is
    found and a required field is missing. *)
Definition process_entry (loc_data : json) : option (list (string * json)) :=
  match loc_data with
  | JObj kvs =>
      let processed := processed_data kvs in
      if forallb (field_ok processed) required_fields then Some processed else None
  | _ => None
  end.

(** [for i, loc_data in enumerate(locations_data)]: iterating a list yields
    its elements, a string its characters, a dict its keys; other values
    raise TypeError. *)
Fixpoint chars_of (s : string) : list json :=
  match s with
  | EmptyString => []
  | String c s' => JStr (String c EmptyString) :: chars_of s'
  end.

Definition items_of (v : json) : option (list json) :=
  match v with
  | JArr l => Some l
  | JStr s => Some (chars_of s)
  | JObj kvs => Some (map (fun kv => JStr (fst kv)) kvs)
  | _ => None
  end.

(** The first db.json found among the candidate paths. *)
Inductive fixture_file :=
| NoFile
| BadJson
| Doc (data : json).

Section Seeding.

(** The text the database driver stores for a number or a boolean bound to
    a text column. *)
Variable adapt : json -> option string.

(** How the driver binds a loaded JSON value to a text column: [None] when
    it refuses the value, which makes the statement, and so [db.commit()],
    raise.  A string is stored as it is and [None] as NULL; neither sqlite3
    nor psycopg2 can bind a Python list or dict to a text column. *)
Definition store_value (v : json) : option (option string) :=
  match v with
  | JNull => Some None
  | JStr s => Some (Some s)
  | JBool _ | JNum _ => Some (adapt v)
  | JArr _ | JObj _ => None
  end.

(** The value bound for one attribute of [DBLocation(...)] on processed_data: an
    attribute the dict does not set is NULL. *)
Definition column (processed : list (string * json)) (k : string) : option (option string) :=
  match dict_get k processed with
  | Some v => store_value v
  | None => Some None
  end.

(** The INSERT the flush emits for one added object, keyed [i]; [None]
    when the driver refuses one of its values. *)
Definition mk_row (i : Z) (processed : list (string * json)) : option DBLocation :=
  match column processed "name", column processed "loca", column processed "img",
        column processed "desc", column processed "facilities", column processed "layout" with
  | Some n, Some l, Some im, Some d, Some f, Some la =>
      Some {| id := i; name := n; loca := l; img := im; desc := d;
              facilities := f; layout := la |}
  | _, _, _, _, _, _ => None
  end.

(** The flush at [db.commit()]: the added objects are inserted in order,
    each keyed as SQLite keys it; the first refused value aborts the
    transaction ([None]). *)
Fixpoint insert_rows (rs : list DBLocation) (pending : list (list (string * json)))
  : option (list DBLocation) :=
  match pending with
  | [] => Some rs
  | p :: ps => match mk_row (fresh_id rs) p with
               | Some r => insert_rows (rs ++ [r]) ps
               | None => None
               end
  end.


(** The processing loop: [(successful_inserts, objects added to the session)]. *)
Definition seed_loop (locations_data : list json) : Z * list (list (string * json)) :=
  fold_left (fun acc loc_data =>
               match process_entry loc_data with
               | Some p => (fst acc + 1, snd acc ++ [p])
               | None => acc
               end) locations_data (0, []).

(** Lines 369-423: the loop, then [db.rollback()] and a 500 when nothing was
    processed, else a single [db.commit()]; when the commit raises, the
    [except Exception] at line 427 rolls back and answers 500. *)
Definition seed_batch (locations_data : list json) : M (Z * Z) :=
  let (successful_inserts, pending) := seed_loop locations_data in
  if successful_inserts =? 0 then raise DataFormat else
  s <- get ;;
  match insert_rows (rows s) pending with
  | None => raise ServerError
  | Some rs =>
      put {| rows := rs |} ;;;
      ret (successful_inserts, Z.of_nat (length locations_data))
  end.

(** Lines 324-342: the 400 raised for a non-empty table is an [Exception],
    so the [except Exception] right below catches it and drops and recreates
    the tables. *)
Definition check_existing : M unit :=
  s <- get ;;
  let existing_count := Z.of_nat (length (rows s)) in
  if existing_count >? 0 then
    (* raise HTTPException(400) ... except Exception: drop_all; create_all *)
    put empty_store
  else ret tt.

Definition seed_database (settings : Settings) (secret : string) (file : fixture_file)
  : M (Z * Z) :=
  if negb (secret =? SEED_SECRET settings)%string then raise Forbidden else
  check_existing ;;;
  match file with
  | NoFile => raise FixtureMissing
  | BadJson => raise FixtureInvalid
  | Doc (JObj data) =>
      let locations_data :=
        match dict_get "locations"%string data with Some v => v | None => JArr [] end in
      if negb (truthy locations_data) then raise FixtureMissing else
      match items_of locations_data with
      | None => raise ServerError
      | Some items => seed_batch items
      end
  | Doc _ => raise ServerError   (* data.get on a non-dict: AttributeError *)
  end.

End Seeding.

Definition reset_database (settings : Settings) (secret : string) : M Z :=
  if negb (secret =? SEED_SECRET settings)%string then raise Forbidden else
  s <- get ;;
  let deleted_count := Z.of_nat (length (rows s)) in
  put {| rows := [] |} ;;;
  ret deleted_count.

(** ** The listing filters as the spec words them *)

(** Spec reading: "case-insensitive substring match". *)
Fixpoint prefix_of (p s : string) : bool :=
  match p, s with
  | EmptyString, _ => true
  | String _ _, EmptyString => false
  | String c p', String d s' => Ascii.eqb c d && prefix_of p' s'
  end.

Fixpoint substring_of (needle hay : string) : bool :=
  prefix_of needle hay ||
  match hay with EmptyString => false | String _ hay' => substring_of needle hay' end.

Definition spec_ci_substring (needle : string) (col : option string) : bool :=
  match col with
  | None => false
  | Some hay => substring_of (lower_string needle) (lower_string hay)
  end.

(** Spec reading of the two filters, combined with AND, [search] an OR over
    [name] and [desc]. *)
Definition spec_listed (q : ListQuery) (r : DBLocation) : bool :=
  match truthy_str (q_loca q) with
  | None => true
  | Some l => spec_ci_substring l (loca r)
  end &&
  match truthy_str (q_search q) with
  | None => true
  | Some sr => spec_ci_substring sr (name r) || spec_ci_substring sr (desc r)
  end.

(** No LIKE wildcard in a string. *)
Fixpoint wildcard_free (s : string) : bool :=
  match s with
  | EmptyString => true
  | String c s' => negb (Ascii.eqb c "%"%char) && negb (Ascii.eqb c "_"%char) && wildcard_free s'
  end.

(** ** POST /locations *)

(** [class LocationCreate(LocationBase)] *)
Record LocationCreate := mkCreate {
  c_name : string;
  c_loca : string;
  c_img : string;
  c_desc : string;
  c_facilities : option string;
  c_layout_info : option string
}.

(** [location.model_dump()]: every field, in declaration order. *)
Definition model_dump (c : LocationCreate) : list (string * option string) :=
  [("name", Some (c_name c)); ("loca", Some (c_loca c)); ("img", Some (c_img c));
   ("desc", Some (c_desc c)); ("facilities", c_facilities c);
   ("layout_info", c_layout_info c)]%string.

(** The mapped attributes of the [DBLocation] class, which the declarative
    constructor accepts as keyword arguments.  Its check is [hasattr], which
    also holds for the class's other attributes ([metadata], [registry],
    dunder names): the model below is exact for keys that name none of
    those, and the properties proved from it only rely on such keys. *)
Definition attr_names : list string :=
  ["id"; "name"; "loca"; "img"; "desc"; "facilities"; "layout"]%string.

(** SQLAlchemy's declarative constructor raises TypeError for a keyword that
    is not an attribute of the class. *)
Definition declarative_accepts (keys : list string) : bool :=
  forallb (fun k => existsb (String.eqb k) attr_names) keys.

Definition create_location (location : LocationCreate) : M DBLocation :=
  let kw := model_dump location in
  if negb (declarative_accepts (map fst kw)) then
    raise ServerError   (* TypeError -> except Exception: rollback, 500 *)
  else
    s <- get ;;
    let col k := match find (fun kv => String.eqb (fst kv) k) kw with
                 | Some kv => snd kv | None => None end in
    let new_location :=
      {| id := fresh_id (rows s); name := col "name"%string; loca := col "loca"%string;
         img := col "img"%string; desc := col "desc"%string;
         facilities := col "facilities"%string; layout := col "layout"%string |} in
    put {| rows := rows s ++ [new_location] |} ;;;
    ret new_location.

(** ** The table invariant of the primary key *)

(** Keys are unique and positive, so every stored row can be read by id. *)
Definition store_wf (s : Store) : Prop :=
  NoDup (map id (rows s)) /\ Forall (fun r => 0 < id r) (rows s).

(** ** The standalone script src/seed.py *)

Module SeedScript.

(** What [seed_database()] of the script ends with. *)
Inductive script_result :=
| AlreadySeeded   (** "Database sudah terisi. Seeding dibatalkan." *)
| FileMissing     (** FileNotFoundError caught: message, return *)
| Crashed         (** an uncaught exception: nothing committed *)
| Committed       (** "SUKSES! Data berhasil dimasukkan." *)
| CommitFailed.   (** commit raised: message, rollback *)

(** [if 'Layout' in loc_data: loc_data['layout_info'] = loc_data.pop('Layout')] *)
Definition rename_layout (loc_data : list (string * json)) : list (string * json) :=
  match dict_get "Layout"%string loc_data with
  | Some v => dict_set "layout_info"%string v
                (filter (fun kv => negb (fst kv =? "Layout")%string) loc_data)
  | None => loc_data
  end.

(** [DBLocation(...)] on the entry as keyword arguments: [None] when it raises. *)
Definition prepare (loc_data : json) : option (list (string * json)) :=
  match loc_data with
  | JObj kvs =>
      let kvs' := rename_layout kvs in
      if declarative_accepts (map fst kvs') then Some kvs' else None
  | _ => None   (* ** on a non-mapping: TypeError *)
  end.

Fixpoint prepare_all (items : list json) : option (list (list (string * json))) :=
  match items with
  | [] => Some []
  | j :: js => match prepare j, prepare_all js with
               | Some p, Some ps => Some (p :: ps)
               | _, _ => None
               end
  end.

Section Script.

(** [db.commit()] of the added objects against PostgreSQL: the new table, or
    [None] when the database rejects the commit. *)
Variable commit : Store -> list (list (string * json)) -> option Store.

Definition seed_database (file : fixture_file) (s : Store) : script_result * Store :=
  if 0 <? Z.of_nat (length (rows s)) then (AlreadySeeded, s) else
  match file with
  | NoFile => (FileMissing, s)
  | BadJson => (Crashed, s)                     (* JSONDecodeError *)
  | Doc (JObj data) =>
      match dict_get "locations"%string data with
      | None => (Crashed, s)                    (* KeyError *)
      | Some locations_data =>
          match items_of locations_data with
          | None => (Crashed, s)                (* not iterable *)
          | Some items =>
              match prepare_all items with
              | None => (Crashed, s)
              | Some pending =>
                  match commit s pending with
                  | Some s' => (Committed, s')
                  | None => (CommitFailed, s)
                  end
              end
          end
      end
  | Doc _ => (Crashed, s)                       (* data["locations"] on a non-dict *)
  end.

End Script.

End SeedScript.

(** ** Concrete inputs *)

(** The configuration with both settings at their defaults. *)
Definition default_settings : Settings :=
  {| DATABASE_URL := "sqlite:///./test.db"; SEED_SECRET := "default_secret" |}%string.

(** A fixture object with the four required fields. *)
Definition fixture_loc (n : string) : json :=
  JObj [("name", JStr n); ("loca", JStr "X"); ("img", JStr "i"); ("desc", JStr "d")]%string.

Definition row (i : Z) (n : string) (lay : option string) : DBLocation :=
  {| id := i; name := Some n; loca := Some "X"%string; img := Some "i"%string;
     desc := Some "d"%string; facilities := None; layout := lay |}.

Definition no_update : LocationUpdate :=
  {| u_name := None; u_loca := None; u_img := None; u_desc := None;
     u_facilities := None; u_layout_info := None |}.

(** * Properties *)

(** ** Lookup by primary key *)

Lemma query_first_some (i : Z) (rs : list DBLocation) (r : DBLocation) :
  query_first i rs = Some r -> In r rs /\ id r = i.
Proof.
  unfold query_first. intros H. apply find_some in H as [Hin Heq].
  split; [exact Hin | now apply Z.eqb_eq].
Qed.

Lemma query_first_none (i : Z) (rs : list DBLocation) :
  query_first i rs = None <-> (forall r, In r rs -> id r <> i).
Proof.
  unfold query_first. split.
  - intros H r Hin Heq. apply (find_none _ _ H) in Hin. apply Z.eqb_neq in Hin. contradiction.
  - induction rs as [|x rs IH]; intros H; simpl; [reflexivity|].
    destruct (id x =? i) eqn:E.
    + apply Z.eqb_eq in E. exfalso. apply (H x); [left; reflexivity | exact E].
    + apply IH. intros r Hin. apply H. right. exact Hin.
Qed.




(** ** Delete *)

(** C7: after a successful delete of an id, reading that id fails with
    NotFound; the delete returned no content and removed the rows with that
    id, one of which existed. *)
Theorem delete_then_read_not_found (i : Z) (s s' : Store) :
  delete_location i s = (Ok tt, s') ->
  read_location i s' = (Err NotFound, s') /\
  rows s' = filter (fun r => negb (id r =? i)) (rows s) /\
  (exists r, In r (rows s) /\ id r = i).
Proof.
  unfold delete_location, read_location, bind, get, put, ret, raise.
  destruct (i <=? 0) eqn:E; [discriminate|].
  destruct (query_first i (rows s)) as [r0|] eqn:Q; [|discriminate].
  intros H. injection H as <-. apply query_first_some in Q as [Hin Hid]. rewrite Hid.
  simpl. repeat split.
  - replace (query_first i (filter (fun r => negb (id r =? i)) (rows s))) with (@None DBLocation);
      [reflexivity|].
    symmetry. apply query_first_none. intros r Hr Heq.
    apply filter_In in Hr as [_ Hr]. rewrite Heq, Z.eqb_refl in Hr. discriminate.
  - exists r0. auto.
Qed.

Lemma delete_then_read_not_found_witness :
  delete_location 1 {| rows := [row 1 "A" None] |}
    = (Ok tt, {| rows := [] |}) /\
  read_location 1 {| rows := [] |} = (Err NotFound, {| rows := [] |}).
Proof.
  split; [reflexivity|].
  apply (delete_then_read_not_found 1 {| rows := [row 1 "A" None] |}).
  reflexivity.
Defined.

(** ** Partial update *)

(** The value a column should hold after the update, per the update body. *)
Definition pick (o : option (option string)) (old : option string) : option string :=
  match o with Some v => v | None => old end.

Lemma update_location_empty_body (i : Z) (s : Store) (r : DBLocation) :
  0 < i -> query_first i (rows s) = Some r ->
  update_location i no_update s = (Err InvalidInput, s).
Proof.
  intros Hi Hq. unfold update_location, bind, get, raise.
  replace (i <=? 0) with false by lia. now rewrite Hq.
Qed.

(** For a body that does not set [layout_info], exactly the supplied columns
    change, the others keep their values, and the updated row is stored. *)
Lemma update_location_columns (i : Z) (u : LocationUpdate) (s : Store) (r : DBLocation) :
  0 < i -> query_first i (rows s) = Some r -> u_layout_info u = None ->
  model_dump_exclude_unset u <> [] ->
  exists o, update_location i u s =
    (Ok o, {| rows := map (fun x => if id x =? id r then obj_row o else x) (rows s) |}) /\
    id (obj_row o) = id r /\ name (obj_row o) = pick (u_name u) (name r) /\
    loca (obj_row o) = pick (u_loca u) (loca r) /\ img (obj_row o) = pick (u_img u) (img r) /\
    desc (obj_row o) = pick (u_desc u) (desc r) /\
    facilities (obj_row o) = pick (u_facilities u) (facilities r) /\
    layout (obj_row o) = layout r.
Proof.
  intros Hi Hq Hl Hne. unfold update_location, bind, get, put, ret.
  replace (i <=? 0) with false by lia. rewrite Hq.
  destruct u as [n l im d f la]; simpl in Hl; subst la.
  destruct (model_dump_exclude_unset _) eqn:Hd; [contradiction|].
  rewrite <- Hd. eexists. split; [reflexivity|].
  destruct n, l, im, d, f; simpl; repeat split; reflexivity.
Qed.

(** C3 as stated fails (code defect): [setattr(db_location, "layout_info", v)]
    does not reach the mapped attribute [layout], so a body that sets only
    [layout_info] is answered with the new value while the stored row keeps
    its old layout. *)
Theorem update_location_layout_info_not_stored :
  let s := {| rows := [row 1 "A" (Some "old"%string)] |} in
  update_location 1
    {| u_name := None; u_loca := None; u_img := None; u_desc := None;
       u_facilities := None; u_layout_info := Some (Some "new"%string) |} s
  = (Ok {| obj_row := row 1 "A" (Some "old"%string);
           obj_attrs := [("layout_info"%string, Some "new"%string)] |}, s).
Proof. vm_compute. reflexivity. Qed.

(** ** Shared-secret guard *)

(** C9: with a secret other than the configured one, seed and reset fail
    with Forbidden and leave the store as it was. *)
Theorem admin_wrong_secret_forbidden (adapt : json -> option string) (settings : Settings)
  (secret : string) (file : fixture_file) (s : Store) :
  secret <> SEED_SECRET settings ->
  seed_database adapt settings secret file s = (Err Forbidden, s) /\
  reset_database settings secret s = (Err Forbidden, s).
Proof.
  intros H. apply String.eqb_neq in H.
  unfold seed_database, reset_database. rewrite H. split; reflexivity.
Qed.

Lemma admin_wrong_secret_forbidden_witness :
  ("wrong"%string <> SEED_SECRET default_settings) /\
  seed_database (fun _ => None) default_settings "wrong" NoFile empty_store
    = (Err Forbidden, empty_store) /\
  reset_database default_settings "wrong" empty_store = (Err Forbidden, empty_store).
Proof.
  assert (H : "wrong"%string <> SEED_SECRET default_settings) by (vm_compute; discriminate).
  split; [exact H|].
  exact (admin_wrong_secret_forbidden (fun _ => None) default_settings "wrong" NoFile
           empty_store H).
Defined.

(** ** Seeding a non-empty table *)

(** C1 as stated fails (code defect): the Conflict raised for a non-empty
    table is caught by the [except Exception] around it, the tables are
    dropped and recreated, and the seed goes on.  A table with one row,
    seeded with a two-record fixture, ends with two rows. *)
Theorem seed_nonempty_table_reseeds (adapt : json -> option string) :
  let s := {| rows := [row 1 "Old" None] |} in
  let file := Doc (JObj [("locations"%string, JArr [fixture_loc "A"; fixture_loc "B"])]) in
  fst (seed_database adapt default_settings "default_secret" file s) = Ok (2, 2) /\
  length (rows (snd (seed_database adapt default_settings "default_secret" file s))) = 2%nat.
Proof. split; reflexivity. Qed.

(** Whatever the fixture, with the correct secret a non-empty table is
    seeded exactly as a freshly created one: same answer, same final store. *)
Lemma seed_nonempty_as_fresh (adapt : json -> option string) (settings : Settings)
  (file : fixture_file) (s : Store) :
  rows s <> [] ->
  seed_database adapt settings (SEED_SECRET settings) file s
  = seed_database adapt settings (SEED_SECRET settings) file empty_store.
Proof.
  intros H.
  assert (Hc : check_existing s = (Ok tt, empty_store)).
  { unfold check_existing, bind, get, put.
    destruct (rows s) as [|r rs]; [contradiction|]. reflexivity. }
  unfold seed_database. rewrite String.eqb_refl. cbn [negb].
  unfold bind at 1. cbv beta. rewrite Hc. reflexivity.
Qed.

(** ** Seeding batch *)

(** The records of a fixture list that pass processing, in order. *)
Fixpoint successful (items : list json) : list (list (string * json)) :=
  match items with
  | [] => []
  | j :: js => match process_entry j with
               | Some p => p :: successful js
               | None => successful js
               end
  end.

Lemma successful_app (l1 l2 : list json) :
  successful (l1 ++ l2) = successful l1 ++ successful l2.
Proof.
  induction l1 as [|j l1 IH]; simpl; [reflexivity|].
  destruct (process_entry j); rewrite IH; reflexivity.
Qed.

Lemma successful_skip (j : json) (l : list json) :
  process_entry j = None -> successful (j :: l) = successful l.
Proof.
  intros H.
  change (successful (j :: l))
    with (match process_entry j with Some p => p :: successful l | None => successful l end).
  rewrite H. reflexivity.
Qed.

Lemma seed_loop_acc (l : list json) (n : Z) (acc : list (list (string * json))) :
  fold_left (fun acc loc_data =>
               match process_entry loc_data with
               | Some p => (fst acc + 1, snd acc ++ [p])
               | None => acc
               end) l (n, acc)
  = (n + Z.of_nat (length (successful l)), acc ++ successful l).
Proof.
  revert n acc. induction l as [|j l IH]; intros n acc; simpl.
  - rewrite Z.add_0_r, app_nil_r. reflexivity.
  - destruct (process_entry j) as [p|]; simpl; rewrite IH.
    + rewrite <- app_assoc. f_equal. lia.
    + reflexivity.
Qed.

Lemma seed_loop_spec (l : list json) :
  seed_loop l = (Z.of_nat (length (successful l)), successful l).
Proof. unfold seed_loop. rewrite seed_loop_acc. reflexivity. Qed.

Lemma dict_get_acc {V} (k : string) (d : list (string * V)) (acc : option V) :
  fold_left (fun acc kv => if (fst kv =? k)%string then Some (snd kv) else acc) d acc
  = match dict_get k d with Some x => Some x | None => acc end.
Proof.
  unfold dict_get. revert acc. induction d as [|[k' v'] d IH]; intros acc; simpl; [reflexivity|].
  rewrite (IH (if (k' =? k)%string then Some v' else acc)).
  rewrite (IH (if (k' =? k)%string then Some v' else None)).
  destruct (fold_left _ d None); [reflexivity|].
  destruct (k' =? k)%string; reflexivity.
Qed.

Lemma dict_get_app_one {V} (k k' : string) (v : V) (d : list (string * V)) :
  dict_get k (d ++ [(k', v)]) = if (k' =? k)%string then Some v else dict_get k d.
Proof.
  unfold dict_get at 1. rewrite fold_left_app. simpl. rewrite dict_get_acc.
  destruct (k' =? k)%string; [reflexivity|]. destruct (dict_get k d); reflexivity.
Qed.

Lemma dict_get_cons {V} (k k' : string) (v : V) (d : list (string * V)) :
  dict_get k ((k', v) :: d)
  = match dict_get k d with Some x => Some x | None => if (k' =? k)%string then Some v else None end.
Proof. unfold dict_get at 1. simpl. rewrite dict_get_acc. reflexivity. Qed.

Lemma dict_get_filter_other {V} (k k' : string) (d : list (string * V)) :
  (k' =? k)%string = false ->
  dict_get k (filter (fun kv => negb (fst kv =? k')%string) d) = dict_get k d.
Proof.
  intros Hne. induction d as [|[k0 v0] d IH]; simpl; [reflexivity|].
  rewrite dict_get_cons.
  destruct (k0 =? k')%string eqn:E0; simpl.
  - apply String.eqb_eq in E0. subst k0. rewrite Hne, IH.
    destruct (dict_get k d); reflexivity.
  - rewrite dict_get_cons, IH. reflexivity.
Qed.

Lemma dict_get_set {V} (k k' : string) (v : V) (d : list (string * V)) :
  dict_get k (dict_set k' v d) = if (k' =? k)%string then Some v else dict_get k d.
Proof.
  unfold dict_set. rewrite dict_get_app_one.
  destruct (k' =? k)%string eqn:E; [reflexivity|].
  apply dict_get_filter_other. exact E.
Qed.

(** What [processed_data] holds under a database field name. *)
Definition mapped_value (loc_data : list (string * json)) (k : string) : option json :=
  fold_left (fun acc m =>
               if (snd m =? k)%string && negb (fst m =? "id")%string then
                 match dict_get (fst m) loc_data with Some v => Some v | None => acc end
               else acc) field_mapping None.

Lemma processed_get (loc_data : list (string * json)) (k : string) :
  dict_get k (processed_data loc_data) = mapped_value loc_data k.
Proof.
  unfold processed_data, mapped_value.
  change (@None json) with (dict_get k (@nil (string * json))).
  generalize (@nil (string * json)) as pd.
  induction field_mapping as [|[jf dbf] l IH]; intros pd; simpl; [reflexivity|].
  rewrite IH. f_equal. unfold map_field.
  destruct (dict_get jf loc_data) as [v|].
  - destruct (jf =? "id")%string; simpl.
    + now rewrite andb_false_r.
    + rewrite andb_true_r, dict_get_set. reflexivity.
  - destruct ((dbf =? k)%string && _); reflexivity.
Qed.

Lemma process_entry_field_fails (kvs : list (string * json)) (f : string) :
  In f required_fields -> field_ok (processed_data kvs) f = false ->
  process_entry (JObj kvs) = None.
Proof.
  intros Hin Hf. unfold process_entry.
  destruct (forallb (field_ok (processed_data kvs)) required_fields) eqn:E; [|reflexivity].
  rewrite forallb_forall in E. rewrite (E f Hin) in Hf. discriminate.
Qed.

Lemma mapped_value_name (kvs : list (string * json)) :
  mapped_value kvs "name" = dict_get "name" kvs.
Proof. unfold mapped_value. simpl. destruct (dict_get "name" kvs); reflexivity. Qed.

Lemma mapped_value_loca (kvs : list (string * json)) :
  mapped_value kvs "loca"
  = match dict_get "loca" kvs with Some v => Some v | None => dict_get "locations" kvs end.
Proof.
  unfold mapped_value. simpl.
  destruct (dict_get "loca" kvs), (dict_get "locations" kvs); reflexivity.
Qed.

Lemma mapped_value_img (kvs : list (string * json)) :
  mapped_value kvs "img" = dict_get "img" kvs.
Proof. unfold mapped_value. simpl. destruct (dict_get "img" kvs); reflexivity. Qed.

Lemma mapped_value_desc (kvs : list (string * json)) :
  mapped_value kvs "desc" = dict_get "desc" kvs.
Proof. unfold mapped_value. simpl. destruct (dict_get "desc" kvs); reflexivity. Qed.

(** ** The flush of the seed commit *)

Lemma fold_max_ge (ks : list Z) (k : Z) :
  k <= fold_left Z.max ks k /\ Forall (fun x => x <= fold_left Z.max ks k) ks.
Proof.
  revert k. induction ks as [|x ks IH]; intros k; simpl; [split; [lia | constructor]|].
  destruct (IH (Z.max k x)) as [H1 H2]. split; [lia|]. constructor; [lia | exact H2].
Qed.

Lemma fresh_id_gt (rs : list DBLocation) (r : DBLocation) :
  In r rs -> id r < fresh_id rs.
Proof.
  intros Hin. apply (in_map id) in Hin. unfold fresh_id.
  destruct (map id rs) as [|k ks]; [destruct Hin|].
  destruct (fold_max_ge ks k) as [H1 H2]. destruct Hin as [<-|Hin]; [lia|].
  rewrite Forall_forall in H2. specialize (H2 _ Hin). lia.
Qed.


Lemma fresh_id_pos (rs : list DBLocation) :
  Forall (fun r => 0 < id r) rs -> 0 < fresh_id rs.
Proof.
  intros H. destruct rs as [|r rs]; [reflexivity|].
  pose proof (fresh_id_gt (r :: rs) r (or_introl eq_refl)).
  inversion H; subst. lia.
Qed.

Lemma mk_row_id (adapt : json -> option string) (i : Z) (p : list (string * json)) (r : DBLocation) :
  mk_row adapt i p = Some r -> id r = i.
Proof.
  unfold mk_row.
  destruct (column adapt p "name"), (column adapt p "loca"), (column adapt p "img"),
    (column adapt p "desc"), (column adapt p "facilities"), (column adapt p "layout");
    try discriminate.
  intros H. injection H as <-. reflexivity.
Qed.




Lemma insert_rows_wf (adapt : json -> option string) (ps : list (list (string * json))) :
  forall rs rs', store_wf {| rows := rs |} -> insert_rows adapt rs ps = Some rs' ->
  store_wf {| rows := rs' |}.
Proof.
  induction ps as [|p ps IH]; intros rs rs' Hwf H; simpl in H.
  - injection H as <-. exact Hwf.
  - destruct (mk_row adapt (fresh_id rs) p) as [r|] eqn:Hr; [|discriminate].
    apply (IH (rs ++ [r])); [|exact H].
    pose proof (mk_row_id _ _ _ _ Hr) as Hid.
    destruct Hwf as [Hnd Hpos]. unfold store_wf; simpl in *. rewrite map_app. split.
    + apply NoDup_app; [exact Hnd | repeat constructor; simpl; tauto|].
      intros a Ha [Ha2|[]]. apply in_map_iff in Ha as [x [<- Hx]].
      apply fresh_id_gt in Hx. lia.
    + apply Forall_app. split; [exact Hpos|]. constructor; [|constructor].
      rewrite Hid. now apply fresh_id_pos.
Qed.

(** ** Seeding batch: the contract *)



(** C10: a fixture object whose required field is present but falsy (an
    empty string, null, 0, false, an empty list or object) is skipped like a
    missing one. *)
Theorem seed_falsy_required_skipped (kvs : list (string * json)) (f : string) (v : json) :
  In f required_fields -> dict_get f kvs = Some v -> truthy v = false ->
  process_entry (JObj kvs) = None /\
  forall l1 l2, successful (l1 ++ JObj kvs :: l2) = successful (l1 ++ l2).
Proof.
  intros Hin Hv Hfalse.
  assert (Hp : process_entry (JObj kvs) = None).
  { apply (process_entry_field_fails kvs f Hin). unfold field_ok. rewrite processed_get.
    destruct Hin as [<-|[<-|[<-|[<-|[]]]]].
    - now rewrite mapped_value_name, Hv.
    - now rewrite mapped_value_loca, Hv.
    - now rewrite mapped_value_img, Hv.
    - now rewrite mapped_value_desc, Hv. }
  split; [exact Hp|].
  intros l1 l2. rewrite !successful_app, successful_skip by exact Hp. reflexivity.
Qed.

Lemma seed_falsy_required_skipped_witness :
  let kvs := [("name", JStr ""); ("loca", JStr "X"); ("img", JStr "i"); ("desc", JStr "d")]%string in
  In "name"%string required_fields /\ dict_get "name" kvs = Some (JStr "") /\
  truthy (JStr "") = false /\ process_entry (JObj kvs) = None.
Proof.
  intros kvs.
  assert (H1 : In "name"%string required_fields) by (simpl; tauto).
  assert (H2 : dict_get "name" kvs = Some (JStr "")) by reflexivity.
  assert (H3 : truthy (JStr "") = false) by reflexivity.
  split; [exact H1|]. split; [exact H2|]. split; [exact H3|].
  exact (proj1 (seed_falsy_required_skipped kvs "name" (JStr "") H1 H2 H3)).
Defined.

(** A fixture with one valid record seeds an empty table with that record. *)
Example seed_one_record :
  seed_database (fun j => match j with JStr x => Some x | _ => None end)
    default_settings "default_secret"
    (Doc (JObj [("locations"%string, JArr [fixture_loc "A"])])) empty_store
  = (Ok (1, 1), {| rows := [row 1 "A" None] |}).
Proof. vm_compute. reflexivity. Qed.

(** ** Listing: limit *)

Lemma read_locations_ok (q : ListQuery) (s : Store) :
  limit_valid q = true ->
  read_locations q s
  = (Ok (firstn (Z.to_nat (limit_of q)) (apply_sort (sort_by_of q) (order_of q) (filtered q s))), s).
Proof. intros H. unfold read_locations. rewrite H. reflexivity. Qed.

(** C4: a limit outside [1,100] (0 and 101 among them) is rejected, not
    clamped, and the store is untouched; an answer never has more rows than
    the limit, so at most 100; an absent limit is the limit 100. *)
Theorem read_locations_limit (q : ListQuery) (s : Store) :
  (forall l, q_limit q = Some l -> (l < 1 \/ 100 < l) ->
     read_locations q s = (Err Unprocessable, s)) /\
  (q_limit q = Some 0 \/ q_limit q = Some 101 -> read_locations q s = (Err Unprocessable, s)) /\
  (forall rs s', read_locations q s = (Ok rs, s') ->
     s' = s /\ Z.of_nat (length rs) <= limit_of q /\ (length rs <= 100)%nat) /\
  (q_limit q = None ->
     read_locations q s
     = read_locations {| q_search := q_search q; q_loca := q_loca q; q_sort_by := q_sort_by q;
                         q_order := q_order q; q_limit := Some 100 |} s).
Proof.
  assert (Hrej : forall l, q_limit q = Some l -> (l < 1 \/ 100 < l) ->
                 read_locations q s = (Err Unprocessable, s)).
  { intros l Hl Hr. unfold read_locations, limit_valid, limit_of. rewrite Hl.
    replace ((1 <=? l) && (l <=? 100)) with false; [reflexivity|].
    symmetry. apply andb_false_iff. destruct Hr; [left|right]; apply Z.leb_gt; lia. }
  split; [exact Hrej|]. split; [|split].
  - intros [H|H]; apply (Hrej _ H); lia.
  - intros rs s' H. unfold read_locations in H.
    destruct (limit_valid q) eqn:V; [|discriminate].
    simpl in H. injection H as <- <-. unfold limit_valid in V.
    apply andb_true_iff in V as [V1 V2]. apply Z.leb_le in V1, V2.
    pose proof (firstn_le_length (Z.to_nat (limit_of q))
                  (apply_sort (sort_by_of q) (order_of q) (filtered q s))) as Hle.
    repeat split; lia.
  - intros H. unfold read_locations, limit_valid, limit_of, sort_by_of, order_of,
      filtered, filter_search, filter_loca. rewrite H. reflexivity.
Qed.

(** ** Listing: sort *)

Section InsertionSort.
Variable A : Type.
Variable le : A -> A -> bool.
Hypothesis le_total : forall a b, le a b = false -> le b a = true.

Lemma insert_by_perm (x : A) (l : list A) : Permutation (insert_by le x l) (x :: l).
Proof.
  induction l as [|y l IH]; simpl; [reflexivity|].
  destruct (le x y); [reflexivity|].
  transitivity (y :: x :: l); [now apply perm_skip | apply perm_swap].
Qed.

Lemma sort_by_le_perm (l : list A) : Permutation (sort_by_le le l) l.
Proof.
  induction l as [|x l IH]; simpl; [reflexivity|].
  rewrite insert_by_perm. now apply perm_skip.
Qed.

Lemma insert_by_hdrel (a x : A) (l : list A) :
  HdRel (fun u v => le u v = true) a l -> le a x = true ->
  HdRel (fun u v => le u v = true) a (insert_by le x l).
Proof.
  intros Hd Hax. destruct l as [|y l]; simpl; [now constructor|].
  destruct (le x y); constructor; [exact Hax|]. now inversion Hd.
Qed.

Lemma insert_by_sorted (x : A) (l : list A) :
  Sorted (fun u v => le u v = true) l -> Sorted (fun u v => le u v = true) (insert_by le x l).
Proof.
  induction l as [|y l IH]; intros Hs; simpl; [now repeat constructor|].
  destruct (le x y) eqn:E.
  - constructor; [exact Hs | now constructor].
  - inversion Hs as [|? ? Hs' Hd]; subst. constructor; [now apply IH|].
    apply insert_by_hdrel; [exact Hd | now apply le_total].
Qed.

Lemma sort_by_le_sorted (l : list A) : Sorted (fun u v => le u v = true) (sort_by_le le l).
Proof.
  induction l as [|x l IH]; simpl; [constructor|]. now apply insert_by_sorted.
Qed.

End InsertionSort.

Lemma id_order_total (d : bool) (a b : DBLocation) :
  id_order d a b = false -> id_order d b a = true.
Proof. unfold id_order. destruct d; intros H; apply Z.leb_gt in H; apply Z.leb_le; lia. Qed.

Lemma opt_str_le_total (a b : option string) :
  opt_str_le a b = false -> opt_str_le b a = true.
Proof.
  destruct a as [x|], b as [y|]; simpl; try discriminate; try reflexivity.
  intros H. destruct (String.leb_total x y) as [H'|H']; [congruence | exact H'].
Qed.

Lemma name_order_total (d : bool) (a b : DBLocation) :
  name_order d a b = false -> name_order d b a = true.
Proof. unfold name_order. destruct d; apply opt_str_le_total. Qed.

(** C6: with [sort_by] equal to [id] or [name] the rows are those of the
    filters, ordered by that column, descending exactly when [order] lowered
    is [desc]; with any other [sort_by] they stay in store order. *)
Theorem read_locations_sort (q : ListQuery) (s : Store) :
  limit_valid q = true ->
  let n := Z.to_nat (limit_of q) in
  let d := is_desc (order_of q) in
  (sort_by_of q = "id"%string -> exists l,
     Permutation l (filtered q s) /\
     Sorted (fun a b => (if d then id b <=? id a else id a <=? id b) = true) l /\
     read_locations q s = (Ok (firstn n l), s)) /\
  (sort_by_of q = "name"%string -> exists l,
     Permutation l (filtered q s) /\
     Sorted (fun a b => (if d then opt_str_le (name b) (name a)
                         else opt_str_le (name a) (name b)) = true) l /\
     read_locations q s = (Ok (firstn n l), s)) /\
  (sort_by_of q <> "id"%string -> sort_by_of q <> "name"%string ->
     read_locations q s = (Ok (firstn n (filtered q s)), s)).
Proof.
  intros Hv n d. rewrite (read_locations_ok q s Hv). unfold apply_sort.
  split; [|split].
  - intros H. rewrite H. simpl.
    exists (sort_by_le (id_order d) (filtered q s)). split; [|split].
    + apply sort_by_le_perm.
    + apply (sort_by_le_sorted _ (id_order d) (id_order_total d)).
    + reflexivity.
  - intros H. rewrite H. simpl.
    exists (sort_by_le (name_order d) (filtered q s)). split; [|split].
    + apply sort_by_le_perm.
    + apply (sort_by_le_sorted _ (name_order d) (name_order_total d)).
    + reflexivity.
  - intros H1 H2. apply String.eqb_neq in H1, H2. rewrite H1, H2. reflexivity.
Qed.

Lemma read_locations_sort_witness :
  let q := {| q_search := None; q_loca := None; q_sort_by := Some "name"%string;
              q_order := Some "DESC"%string; q_limit := None |} in
  let s := {| rows := [row 1 "A" None; row 2 "B" None] |} in
  limit_valid q = true /\ read_locations q s = (Ok [row 2 "B" None; row 1 "A" None], s) /\
  (sort_by_of q <> "id"%string -> sort_by_of q <> "name"%string ->
     read_locations q s = (Ok (firstn 100 (filtered q s)), s)).
Proof.
  intros q s. assert (Hv : limit_valid q = true) by reflexivity.
  split; [exact Hv|]. split; [vm_compute; reflexivity|].
  exact (proj2 (proj2 (read_locations_sort q s Hv))).
Defined.

(** ** Listing: filters *)

(** C5 as stated fails (code defect): the search text goes into the ILIKE
    pattern unescaped, so [_] matches any one character.  A row named [A]
    with description [d] is listed for [search=_], though [_] is a substring
    of neither. *)
Theorem read_locations_search_wildcard :
  let s := {| rows := [row 1 "A" None] |} in
  let q := {| q_search := Some "_"%string; q_loca := Some "x"%string; q_sort_by := None;
              q_order := None; q_limit := None |} in
  read_locations q s = (Ok [row 1 "A" None], s) /\
  spec_listed q (row 1 "A" None) = false.
Proof. split; vm_compute; reflexivity. Qed.

Lemma like_percent (p t : string) :
  like (String "%"%char p) t
  = like p t || match t with EmptyString => false | String _ t' => like (String "%"%char p) t' end.
Proof. destruct t; reflexivity. Qed.

Lemma like_trailing_percent (p t : string) :
  wildcard_free p = true -> like (p ++ "%") t = prefix_of p t.
Proof.
  revert t. induction p as [|c p IH]; intros t Hw.
  - change (EmptyString ++ "%")%string with (String "%"%char EmptyString).
    induction t as [|d t IHt]; rewrite like_percent; [reflexivity|].
    rewrite IHt. destruct t; reflexivity.
  - simpl. simpl in Hw. apply andb_true_iff in Hw as [Hc Hw]. apply andb_true_iff in Hc as [Hc1 Hc2].
    apply negb_true_iff in Hc1, Hc2. rewrite Hc1.
    destruct t as [|d t]; [reflexivity|]. rewrite Hc2, IH by exact Hw. reflexivity.
Qed.

Lemma like_substring (p t : string) :
  wildcard_free p = true -> like ("%" ++ p ++ "%") t = substring_of p t.
Proof.
  intros Hw. change ("%" ++ p ++ "%")%string with (String "%"%char (p ++ "%")).
  induction t as [|d t IH]; rewrite like_percent, like_trailing_percent by exact Hw.
  - destruct p; reflexivity.
  - change (substring_of p (String d t)) with (prefix_of p (String d t) || substring_of p t).
    now rewrite IH.
Qed.

Lemma lower_string_app (a b : string) :
  lower_string (a ++ b) = (lower_string a ++ lower_string b)%string.
Proof. induction a as [|c a IH]; simpl; [reflexivity | now rewrite IH]. Qed.

Lemma lower_ascii_wild (c : ascii) :
  Ascii.eqb (lower_ascii c) "%"%char = Ascii.eqb c "%"%char /\
  Ascii.eqb (lower_ascii c) "_"%char = Ascii.eqb c "_"%char.
Proof. destruct c as [[] [] [] [] [] [] [] []]; split; vm_compute; reflexivity. Qed.

Lemma lower_wildcard_free (p : string) :
  wildcard_free (lower_string p) = wildcard_free p.
Proof.
  induction p as [|c p IH]; simpl; [reflexivity|].
  destruct (lower_ascii_wild c) as [H1 H2]. now rewrite H1, H2, IH.
Qed.

Lemma ilike_spec (col : option string) (l : string) :
  wildcard_free l = true -> ilike col ("%" ++ l ++ "%") = spec_ci_substring l col.
Proof.
  intros Hw. destruct col as [v|]; [|reflexivity]. unfold ilike, spec_ci_substring.
  rewrite !lower_string_app. apply like_substring. now rewrite lower_wildcard_free.
Qed.

Lemma filter_filter_andb {A} (f g : A -> bool) (l : list A) :
  filter f (filter g l) = filter (fun x => g x && f x) l.
Proof.
  induction l as [|x l IH]; simpl; [reflexivity|].
  destruct (g x); simpl; [destruct (f x)|]; rewrite ?IH; reflexivity.
Qed.

Lemma filter_true_id {A} (f : A -> bool) (l : list A) :
  (forall x, f x = true) -> filter f l = l.
Proof.
  intros H. induction l as [|x l IH]; simpl; [reflexivity|]. now rewrite H, IH.
Qed.

(** With filter strings free of LIKE wildcards, the filters are exactly the
    spec's: [loca] AND ([name] OR [desc]), each a case-insensitive substring
    test. *)
Lemma filtered_wildcard_free (q : ListQuery) (s : Store) :
  match q_search q with Some sr => wildcard_free sr = true | None => True end ->
  match q_loca q with Some l => wildcard_free l = true | None => True end ->
  filtered q s = filter (spec_listed q) (rows s).
Proof.
  intros Hs Hl. unfold filtered, filter_search, filter_loca, spec_listed.
  destruct (q_search q) as [[|c sr]|] eqn:ES, (q_loca q) as [[|c' l]|] eqn:EL; simpl truthy_str;
    cbv iota; rewrite ?filter_filter_andb;
    first [ apply filter_ext; intros r; rewrite ?ilike_spec by assumption;
            rewrite ?andb_true_r; reflexivity
          | symmetry; apply filter_true_id; intros r; reflexivity ].
Qed.

(** * Properties of the rest of the handlers *)

(** ** POST /locations *)

(** Every create fails with a 500 and stores nothing: [model_dump()] always
    carries [layout_info], which is not an attribute of [DBLocation]. *)
Theorem create_location_always_fails (c : LocationCreate) (s : Store) :
  create_location c s = (Err ServerError, s).
Proof. reflexivity. Qed.

(** ** Row handlers: failures *)

Lemma update_location_err_same (i : Z) (u : LocationUpdate) (s : Store) (e : error) (s' : Store) :
  update_location i u s = (Err e, s') -> s' = s.
Proof.
  unfold update_location, bind, get, raise, put, ret. intros H.
  destruct (i <=? 0); [congruence|].
  destruct (query_first i (rows s)); [|congruence].
  destruct (model_dump_exclude_unset u); congruence.
Qed.

Lemma delete_location_err_same (i : Z) (s : Store) (e : error) (s' : Store) :
  delete_location i s = (Err e, s') -> s' = s.
Proof.
  unfold delete_location, bind, get, raise, put, ret. intros H.
  destruct (i <=? 0); [congruence|].
  destruct (query_first i (rows s)); congruence.
Qed.

Lemma delete_location_ok_inv (i : Z) (s s' : Store) :
  delete_location i s = (Ok tt, s') ->
  s' = {| rows := filter (fun r => negb (id r =? i)) (rows s) |}.
Proof.
  unfold delete_location, bind, get, put, ret, raise.
  destruct (i <=? 0); [discriminate|].
  destruct (query_first i (rows s)) as [r0|] eqn:Q; [|discriminate].
  intros H. injection H as <-. apply query_first_some in Q as [_ Hid]. now rewrite Hid.
Qed.



(** ** Row handlers: composition *)

Lemma setattr_id (o : Instance) (k : string) (v : option string) :
  id (obj_row (setattr o k v)) = id (obj_row o).
Proof.
  unfold setattr.
  repeat match goal with |- context [if ?b then _ else _] => destruct b end; reflexivity.
Qed.

Lemma fold_setattr_id (l : list (string * option string)) (o : Instance) :
  id (obj_row (fold_left (fun o kv => setattr o (fst kv) (snd kv)) l o)) = id (obj_row o).
Proof.
  revert o. induction l as [|kv l IH]; intros o; simpl; [reflexivity|].
  rewrite IH. apply setattr_id.
Qed.

Lemma update_location_ok_inv (i : Z) (u : LocationUpdate) (s s' : Store) (o : Instance) :
  update_location i u s = (Ok o, s') ->
  exists r, query_first i (rows s) = Some r /\ id (obj_row o) = id r /\
    s' = {| rows := map (fun x => if id x =? id r then obj_row o else x) (rows s) |}.
Proof.
  unfold update_location, bind, get, raise, put, ret.
  destruct (i <=? 0); [discriminate|].
  destruct (query_first i (rows s)) as [r|]; [|discriminate].
  destruct (model_dump_exclude_unset u) as [|kv l] eqn:E; [discriminate|].
  intros H. injection H as <- <-. exists r. split; [reflexivity|]. split; [|reflexivity].
  rewrite fold_setattr_id, setattr_id. reflexivity.
Qed.

Lemma query_first_map_same_id (i : Z) (g : DBLocation -> DBLocation) (rs : list DBLocation) :
  (forall x, id (g x) = id x) ->
  query_first i (map g rs) = option_map g (query_first i rs).
Proof.
  intros Hg. unfold query_first. induction rs as [|x rs IH]; simpl; [reflexivity|].
  rewrite Hg. destruct (id x =? i); [reflexivity | exact IH].
Qed.

(** After a successful PATCH, reading the same id returns the row as
    stored by the update (its mapped columns). *)
Theorem read_after_update (i : Z) (u : LocationUpdate) (s s' : Store) (o : Instance) :
  update_location i u s = (Ok o, s') ->
  read_location i s' = (Ok (obj_row o), s') /\ id (obj_row o) = i.
Proof.
  intros H. pose proof H as H0.
  apply update_location_ok_inv in H as [r [Hq [Hid ->]]].
  pose proof (query_first_some _ _ _ Hq) as [_ Hri].
  assert (Hi : 0 < i).
  { unfold update_location in H0. destruct (i <=? 0) eqn:E; [discriminate|]. lia. }
  split; [|congruence].
  unfold read_location, bind, get, raise, ret.
  replace (i <=? 0) with false by lia. cbv beta iota. cbn [rows].
  rewrite query_first_map_same_id, Hq.
  - simpl. rewrite Z.eqb_refl. reflexivity.
  - intros x. destruct (id x =? id r) eqn:E; [apply Z.eqb_eq in E; congruence | reflexivity].
Qed.

Lemma read_after_update_witness :
  let s := {| rows := [row 1 "A" None] |} in
  let u := {| u_name := Some (Some "B"%string); u_loca := None; u_img := None; u_desc := None;
              u_facilities := None; u_layout_info := None |} in
  update_location 1 u s = (Ok {| obj_row := row 1 "B" None; obj_attrs := [] |},
                            {| rows := [row 1 "B" None] |}) /\
  read_location 1 {| rows := [row 1 "B" None] |}
    = (Ok (row 1 "B" None), {| rows := [row 1 "B" None] |}).
Proof.
  intros s u. assert (H : update_location 1 u s = (Ok {| obj_row := row 1 "B" None; obj_attrs := [] |},
                            {| rows := [row 1 "B" None] |})) by reflexivity.
  split; [exact H|]. exact (proj1 (read_after_update 1 u s _ _ H)).
Defined.

Lemma query_first_filter_other (i j : Z) (rs : list DBLocation) :
  j <> i -> query_first j (filter (fun r => negb (id r =? i)) rs) = query_first j rs.
Proof.
  intros Hne. unfold query_first. induction rs as [|x rs IH]; simpl; [reflexivity|].
  destruct (id x =? i) eqn:Ei; simpl.
  - apply Z.eqb_eq in Ei. replace (id x =? j) with false by (symmetry; apply Z.eqb_neq; lia).
    exact IH.
  - destruct (id x =? j); [reflexivity | exact IH].
Qed.

(** A successful DELETE of one id does not change what reading any other id
    answers. *)
Theorem delete_keeps_other_reads (i : Z) (s s' : Store) :
  delete_location i s = (Ok tt, s') ->
  forall j, j <> i -> fst (read_location j s') = fst (read_location j s).
Proof.
  intros H j Hj. apply delete_location_ok_inv in H. subst s'.
  unfold read_location, bind, get, raise, ret.
  destruct (j <=? 0); [reflexivity|]. cbv beta iota. cbn [rows].
  rewrite query_first_filter_other by exact Hj.
  destruct (query_first j (rows s)); reflexivity.
Qed.

Lemma delete_keeps_other_reads_witness :
  let s := {| rows := [row 1 "A" None; row 2 "B" None] |} in
  delete_location 1 s = (Ok tt, {| rows := [row 2 "B" None] |}) /\
  fst (read_location 2 {| rows := [row 2 "B" None] |}) = fst (read_location 2 s).
Proof.
  intros s. assert (H : delete_location 1 s = (Ok tt, {| rows := [row 2 "B" None] |}))
    by reflexivity.
  split; [exact H|]. apply (delete_keeps_other_reads 1 s _ H 2). lia.
Defined.

(** ** The key invariant *)

Lemma store_wf_rows_map (s : Store) (g : DBLocation -> DBLocation) :
  (forall x, id (g x) = id x) -> store_wf s ->
  store_wf {| rows := map g (rows s) |}.
Proof.
  intros Hg [Hnd Hlt]. unfold store_wf; simpl. rewrite map_map.
  rewrite (map_ext (fun x => id (g x)) id Hg). split; [exact Hnd|].
  apply Forall_map. eapply Forall_impl; [|exact Hlt]. intros x Hx. now rewrite Hg.
Qed.

Lemma store_wf_filter (s : Store) (f : DBLocation -> bool) :
  store_wf s -> store_wf {| rows := filter f (rows s) |}.
Proof.
  intros [Hnd Hlt]. unfold store_wf; simpl. split.
  - clear Hlt. induction (rows s) as [|x l IH]; simpl in *; [constructor|].
    inversion Hnd as [|? ? Hni Hnd']; subst.
    destruct (f x); simpl; [|now apply IH]. constructor; [|now apply IH].
    intros Hin. apply Hni. apply in_map_iff in Hin as [y [Hy Hin]].
    apply filter_In in Hin as [Hin _]. rewrite <- Hy. now apply in_map.
  - apply Forall_forall. intros x Hx. apply filter_In in Hx as [Hx _].
    rewrite Forall_forall in Hlt. now apply Hlt.
Qed.

(** PATCH and DELETE keep primary keys unique and positive. *)
Theorem row_handlers_keep_wf (i : Z) (u : LocationUpdate) (s : Store) :
  store_wf s ->
  (forall o s', update_location i u s = (o, s') -> store_wf s') /\
  (forall o s', delete_location i s = (o, s') -> store_wf s').
Proof.
  intros Hwf. split.
  - intros o s' H. destruct o as [ob|e].
    + apply update_location_ok_inv in H as [r [_ [Hid ->]]].
      apply store_wf_rows_map; [|exact Hwf].
      intros x. destruct (id x =? id r) eqn:E; [apply Z.eqb_eq in E; congruence | reflexivity].
    + apply update_location_err_same in H. now subst.
  - intros o s' H. destruct o as [[]|e].
    + apply delete_location_ok_inv in H. subst s'. now apply store_wf_filter.
    + apply delete_location_err_same in H. now subst.
Qed.

Lemma row_handlers_keep_wf_witness :
  store_wf {| rows := [row 1 "A" None] |} /\
  (forall o s', delete_location 1 {| rows := [row 1 "A" None] |} = (o, s') ->
     store_wf s').
Proof.
  assert (H : store_wf {| rows := [row 1 "A" None] |}).
  { split; simpl; [repeat constructor; simpl; tauto | repeat constructor; simpl; lia]. }
  split; [exact H|]. exact (proj2 (row_handlers_keep_wf 1 no_update _ H)).
Defined.

Lemma seed_batch_wf (adapt : json -> option string) (items : list json) (s s' : Store) o :
  store_wf s -> seed_batch adapt items s = (o, s') -> store_wf s'.
Proof.
  intros Hwf H. unfold seed_batch in H. rewrite seed_loop_spec in H.
  unfold bind, get, put, ret, raise in H.
  destruct (Z.of_nat (length (successful items)) =? 0); [injection H as _ <-; exact Hwf|].
  destruct (insert_rows adapt (rows s) (successful items)) as [rs|] eqn:E;
    injection H as _ <-; [|exact Hwf].
  destruct s as [rs0]. exact (insert_rows_wf adapt _ rs0 rs Hwf E).
Qed.

(** Seed and reset keep primary keys unique and positive, on every
    path, with any secret and any fixture file. *)
Theorem admin_handlers_keep_wf (adapt : json -> option string) (settings : Settings)
  (secret : string) (file : fixture_file) (s : Store) :
  store_wf s ->
  (forall o s', seed_database adapt settings secret file s = (o, s') -> store_wf s') /\
  (forall o s', reset_database settings secret s = (o, s') -> store_wf s').
Proof.
  intros Hwf. split.
  - intros o s' H. unfold seed_database in H.
    destruct (negb (secret =? SEED_SECRET settings)%string).
    { injection H as _ <-. exact Hwf. }
    unfold bind at 1 in H.
    destruct (check_existing s) as [o1 s1] eqn:C.
    assert (Hwf1 : store_wf s1).
    { unfold check_existing, bind, get, put, ret in C.
      destruct (Z.of_nat (length (rows s)) >? 0); injection C as _ <-;
        [split; simpl; constructor | exact Hwf]. }
    destruct o1 as [[]|e]; [|injection H as _ <-; exact Hwf1].
    destruct file as [| |data]; try (injection H as _ <-; exact Hwf1).
    destruct data; try (injection H as _ <-; exact Hwf1).
    destruct (negb (truthy _)); [injection H as _ <-; exact Hwf1|].
    destruct (items_of _); [|injection H as _ <-; exact Hwf1].
    exact (seed_batch_wf adapt _ s1 s' o Hwf1 H).
  - intros o s' H. unfold reset_database, bind, get, put, ret, raise in H.
    destruct (negb (secret =? SEED_SECRET settings)%string); injection H as _ <-;
      [exact Hwf | split; simpl; constructor].
Qed.

Lemma admin_handlers_keep_wf_witness :
  store_wf {| rows := [row 1 "A" None] |} /\
  (forall o s', seed_database (fun _ => None) default_settings "default_secret"
                  (Doc (JObj [("locations"%string, JArr [fixture_loc "B"])]))
                  {| rows := [row 1 "A" None] |} = (o, s') -> store_wf s').
Proof.
  assert (H : store_wf {| rows := [row 1 "A" None] |}).
  { split; simpl; [repeat constructor; simpl; tauto | repeat constructor; simpl; lia]. }
  split; [exact H|].
  exact (proj1 (admin_handlers_keep_wf (fun _ => None) default_settings "default_secret" _ _ H)).
Defined.

(** ** Reset *)


(** ** Seeding: what is lost and when *)

(** With the secret, a missing or malformed db.json on a non-empty table
    still ends with the table dropped: the call fails and every row is gone. *)
Theorem seed_bad_file_wipes_table (adapt : json -> option string) (settings : Settings)
  (s : Store) :
  rows s <> [] ->
  seed_database adapt settings (SEED_SECRET settings) NoFile s = (Err FixtureMissing, empty_store) /\
  seed_database adapt settings (SEED_SECRET settings) BadJson s = (Err FixtureInvalid, empty_store).
Proof.
  intros H. unfold seed_database. rewrite String.eqb_refl. cbn [negb].
  destruct s as [[|r rs]]; [simpl in H; contradiction|]. split; reflexivity.
Qed.

Lemma seed_bad_file_wipes_table_witness :
  seed_database (fun _ => None) default_settings "default_secret" NoFile
    {| rows := [row 1 "A" None] |} = (Err FixtureMissing, empty_store).
Proof.
  apply (seed_bad_file_wipes_table (fun _ => None) default_settings
           {| rows := [row 1 "A" None] |}).
  discriminate.
Defined.

(** On an empty table, a db.json whose [locations] key is absent or an empty
    list fails like a missing file, and the table is untouched. *)
Theorem seed_empty_fixture_missing (adapt : json -> option string) (settings : Settings)
  (data : list (string * json)) (s : Store) :
  rows s = [] ->
  dict_get "locations" data = None \/ dict_get "locations" data = Some (JArr []) ->
  seed_database adapt settings (SEED_SECRET settings) (Doc (JObj data)) s = (Err FixtureMissing, s).
Proof.
  intros Hs Hd. unfold seed_database. rewrite String.eqb_refl. cbn [negb].
  destruct s as [rs]; simpl in Hs; subst rs.
  destruct Hd as [Hd | Hd]; cbv -[dict_get]; rewrite Hd; reflexivity.
Qed.

Lemma seed_empty_fixture_missing_witness :
  seed_database (fun _ => None) default_settings "default_secret"
    (Doc (JObj [("locations"%string, JArr [])])) empty_store = (Err FixtureMissing, empty_store).
Proof.
  apply seed_empty_fixture_missing; [reflexivity | right; reflexivity].
Defined.





(** ** Listing: what a page holds *)

Lemma apply_sort_perm (sb o : string) (rs : list DBLocation) :
  Permutation (apply_sort sb o rs) rs.
Proof.
  unfold apply_sort.
  destruct (sb =? "id")%string; [apply sort_by_le_perm|].
  destruct (sb =? "name")%string; [apply sort_by_le_perm | reflexivity].
Qed.

(** A listing never writes, returns only stored rows that pass both filters,
    and when no more rows match than the limit it returns all of them. *)
Theorem read_locations_sound (q : ListQuery) (s : Store) (rs : list DBLocation) (s' : Store) :
  read_locations q s = (Ok rs, s') ->
  s' = s /\
  (forall r, In r rs -> In r (rows s) /\ In r (filtered q s)) /\
  ((length (filtered q s) <= Z.to_nat (limit_of q))%nat -> Permutation rs (filtered q s)).
Proof.
  intros H. destruct (limit_valid q) eqn:Hv.
  2: { unfold read_locations in H. rewrite Hv in H. discriminate. }
  rewrite read_locations_ok in H by exact Hv. injection H as <- <-.
  pose proof (apply_sort_perm (sort_by_of q) (order_of q) (filtered q s)) as Hp.
  split; [reflexivity | split].
  - intros r Hr.
    assert (Hf : In r (filtered q s)).
    { apply (Permutation_in _ Hp).
      rewrite <- (firstn_skipn (Z.to_nat (limit_of q))). apply in_or_app. left. exact Hr. }
    split; [|exact Hf].
    unfold filtered, filter_search, filter_loca in Hf.
    destruct (truthy_str (q_search q)); [apply filter_In in Hf; destruct Hf as [Hf _]|];
      (destruct (truthy_str (q_loca q)); [apply filter_In in Hf; destruct Hf as [Hf _]|]);
      exact Hf.
  - intros Hl. rewrite firstn_all2; [exact Hp|].
    rewrite (Permutation_length Hp). exact Hl.
Qed.

Lemma read_locations_sound_witness :
  read_locations (mkQuery None None None None None)
    {| rows := [row 1 "A" None; row 2 "B" None] |}
    = (Ok [row 1 "A" None; row 2 "B" None], {| rows := [row 1 "A" None; row 2 "B" None] |}) /\
  Permutation [row 1 "A" None; row 2 "B" None]
    (filtered (mkQuery None None None None None)
       {| rows := [row 1 "A" None; row 2 "B" None] |}).
Proof.
  assert (H : read_locations (mkQuery None None None None None)
    {| rows := [row 1 "A" None; row 2 "B" None] |}
    = (Ok [row 1 "A" None; row 2 "B" None], {| rows := [row 1 "A" None; row 2 "B" None] |}))
    by reflexivity.
  split; [exact H|].
  apply (proj2 (proj2 (read_locations_sound _ _ _ _ H))). simpl. lia.
Defined.

Lemma truthy_str_lower (o o' : option string) :
  option_map lower_string o = option_map lower_string o' ->
  option_map lower_string (truthy_str o) = option_map lower_string (truthy_str o').
Proof.
  destruct o as [[|c l]|], o' as [[|c' l']|]; simpl; intros H;
    try discriminate; try reflexivity; exact H.
Qed.

Lemma ilike_lower (col : option string) (l l' : string) :
  lower_string l = lower_string l' ->
  ilike col ("%" ++ l ++ "%") = ilike col ("%" ++ l' ++ "%").
Proof.
  intros H. destruct col; [|reflexivity]. unfold ilike. rewrite !lower_string_app, H. reflexivity.
Qed.

Lemma filter_loca_lower (q q' : ListQuery) (rs : list DBLocation) :
  option_map lower_string (q_loca q) = option_map lower_string (q_loca q') ->
  filter_loca q rs = filter_loca q' rs.
Proof.
  intros H. apply truthy_str_lower in H. unfold filter_loca.
  destruct (truthy_str (q_loca q)), (truthy_str (q_loca q')); try discriminate; [|reflexivity].
  injection H as H. apply filter_ext. intros r. apply ilike_lower. exact H.
Qed.

Lemma filter_search_lower (q q' : ListQuery) (rs : list DBLocation) :
  option_map lower_string (q_search q) = option_map lower_string (q_search q') ->
  filter_search q rs = filter_search q' rs.
Proof.
  intros H. apply truthy_str_lower in H. unfold filter_search.
  destruct (truthy_str (q_search q)), (truthy_str (q_search q')); try discriminate; [|reflexivity].
  injection H as H. apply filter_ext. intros r. rewrite !(ilike_lower _ _ _ H). reflexivity.
Qed.

(** The listing does not see the letter case of [search], [loca] or
    [order]: queries that differ only there return the same answer. *)
Theorem read_locations_case_insensitive (q q' : ListQuery) (s : Store) :
  option_map lower_string (q_search q) = option_map lower_string (q_search q') ->
  option_map lower_string (q_loca q) = option_map lower_string (q_loca q') ->
  lower_string (order_of q) = lower_string (order_of q') ->
  q_sort_by q = q_sort_by q' -> q_limit q = q_limit q' ->
  read_locations q s = read_locations q' s.
Proof.
  intros Hs Hl Ho Hb Hm.
  assert (Hv : limit_valid q = limit_valid q') by (unfold limit_valid, limit_of; now rewrite Hm).
  destruct (limit_valid q) eqn:E.
  - rewrite !read_locations_ok by congruence.
    unfold filtered. rewrite (filter_loca_lower q q' _ Hl), (filter_search_lower q q' _ Hs).
    unfold limit_of, sort_by_of. rewrite Hb, Hm. unfold apply_sort, is_desc. rewrite Ho.
    reflexivity.
  - assert (E' : limit_valid q' = false) by congruence.
    unfold read_locations. rewrite E, E'. reflexivity.
Qed.

Lemma read_locations_case_insensitive_witness :
  read_locations (mkQuery (Some "A"%string) (Some "x"%string) None (Some "DESC"%string) None)
    {| rows := [row 1 "a" None; row 2 "B" None; row 3 "ab" None] |}
  = read_locations (mkQuery (Some "a"%string) (Some "X"%string) None (Some "desc"%string) None)
    {| rows := [row 1 "a" None; row 2 "B" None; row 3 "ab" None] |}.
Proof. apply read_locations_case_insensitive; reflexivity. Defined.

(** ** The standalone seeder (src/seed.py) *)

Lemma dict_get_in_keys {V} (k : string) (d : list (string * V)) :
  forall v, dict_get k d = Some v -> In k (map fst d).
Proof.
  induction d as [|[k0 v0] d IH]; intros v; simpl; [discriminate|].
  rewrite dict_get_cons. destruct (dict_get k d) as [x|] eqn:E; intros H.
  - right. exact (IH x eq_refl).
  - destruct (k0 =? k)%string eqn:E2; [|discriminate].
    left. apply String.eqb_eq. exact E2.
Qed.

Lemma declarative_rejects (keys : list string) (k : string) :
  In k keys -> existsb (String.eqb k) attr_names = false -> declarative_accepts keys = false.
Proof.
  intros Hin Hk. unfold declarative_accepts.
  destruct (forallb _ keys) eqn:E; [|reflexivity].
  rewrite forallb_forall in E. apply E in Hin. congruence.
Qed.

Lemma rename_layout_bad_key (kvs : list (string * json)) :
  dict_get "Layout" kvs <> None \/ dict_get "layout_info" kvs <> None \/
  dict_get "locations" kvs <> None ->
  exists k, In k (map fst (SeedScript.rename_layout kvs)) /\
            existsb (String.eqb k) attr_names = false.
Proof.
  intros H. unfold SeedScript.rename_layout.
  destruct (dict_get "Layout" kvs) as [v|] eqn:EL.
  - exists "layout_info"%string. split; [|reflexivity].
    apply (dict_get_in_keys _ _ v). rewrite dict_get_set. reflexivity.
  - destruct H as [H|[H|H]]; [contradiction| |].
    + destruct (dict_get "layout_info" kvs) as [v|] eqn:E; [|contradiction].
      exists "layout_info"%string. split; [exact (dict_get_in_keys _ _ v E) | reflexivity].
    + destruct (dict_get "locations" kvs) as [v|] eqn:E; [|contradiction].
      exists "locations"%string. split; [exact (dict_get_in_keys _ _ v E) | reflexivity].
Qed.

Lemma prepare_all_none (items : list json) (j : json) :
  In j items -> SeedScript.prepare j = None -> SeedScript.prepare_all items = None.
Proof.
  intros Hin Hj. induction items as [|a items IH]; [destruct Hin|].
  cbn [SeedScript.prepare_all]. destruct Hin as [<-|Hin].
  - rewrite Hj. reflexivity.
  - rewrite (IH Hin). destruct (SeedScript.prepare a); reflexivity.
Qed.

Lemma prepare_all_ok (kvss : list (list (string * json))) :
  Forall (fun kvs => dict_get "Layout" kvs = None /\ declarative_accepts (map fst kvs) = true) kvss ->
  SeedScript.prepare_all (map JObj kvss) = Some kvss.
Proof.
  induction 1 as [|kvs kvss [HL HA] _ IH]; [reflexivity|].
  cbn [map SeedScript.prepare_all]. rewrite IH.
  unfold SeedScript.prepare, SeedScript.rename_layout. rewrite HL, HA. reflexivity.
Qed.

(** The script leaves a non-empty table alone, whatever db.json holds. *)
Theorem seed_script_nonempty_untouched
  (commit : Store -> list (list (string * json)) -> option Store) (file : fixture_file) (s : Store) :
  rows s <> [] -> SeedScript.seed_database commit file s = (SeedScript.AlreadySeeded, s).
Proof.
  intros H. unfold SeedScript.seed_database.
  destruct (rows s) as [|r rs] eqn:E; [contradiction|]. reflexivity.
Qed.

Lemma seed_script_nonempty_untouched_witness :
  SeedScript.seed_database (fun s _ => Some s) NoFile {| rows := [row 1 "A" None] |}
  = (SeedScript.AlreadySeeded, {| rows := [row 1 "A" None] |}).
Proof. apply seed_script_nonempty_untouched. discriminate. Defined.

(** One fixture object with a [Layout], [layout_info] or [locations] key is
    enough for the script to crash before it commits: the renamed key
    [layout_info] is a column name, not an attribute of [DBLocation]. *)
Theorem seed_script_layout_crashes
  (commit : Store -> list (list (string * json)) -> option Store)
  (data : list (string * json)) (items : list json) (kvs : list (string * json)) (s : Store) :
  rows s = [] -> dict_get "locations" data = Some (JArr items) -> In (JObj kvs) items ->
  dict_get "Layout" kvs <> None \/ dict_get "layout_info" kvs <> None \/
  dict_get "locations" kvs <> None ->
  SeedScript.seed_database commit (Doc (JObj data)) s = (SeedScript.Crashed, s).
Proof.
  intros Hs Hd Hin Hk. unfold SeedScript.seed_database. rewrite Hs, Hd.
  change (0 <? Z.of_nat (length (@nil DBLocation))) with false. cbv iota beta.
  cbn [items_of]. rewrite (prepare_all_none items (JObj kvs) Hin); [reflexivity|].
  destruct (rename_layout_bad_key kvs Hk) as [k [Hkin Hkb]].
  unfold SeedScript.prepare. rewrite (declarative_rejects _ k Hkin Hkb). reflexivity.
Qed.

Lemma seed_script_layout_crashes_witness :
  SeedScript.seed_database (fun s _ => Some s)
    (Doc (JObj [("locations"%string, JArr [JObj [("name", JStr "A"); ("Layout", JStr "L")]%string])]))
    empty_store = (SeedScript.Crashed, empty_store).
Proof.
  apply (seed_script_layout_crashes _ _
           [JObj [("name", JStr "A"); ("Layout", JStr "L")]%string]
           [("name", JStr "A"); ("Layout", JStr "L")]%string);
    [reflexivity | reflexivity | left; reflexivity | left; discriminate].
Defined.

(** When no object has a [Layout] key and every key is an attribute, the
    script hands the objects unchanged to a single commit, and its outcome
    is that commit's. *)
Theorem seed_script_commits
  (commit : Store -> list (list (string * json)) -> option Store)
  (data : list (string * json)) (kvss : list (list (string * json))) (s : Store) :
  rows s = [] -> dict_get "locations" data = Some (JArr (map JObj kvss)) ->
  Forall (fun kvs => dict_get "Layout" kvs = None /\ declarative_accepts (map fst kvs) = true) kvss ->
  SeedScript.seed_database commit (Doc (JObj data)) s
  = match commit s kvss with
    | Some s' => (SeedScript.Committed, s')
    | None => (SeedScript.CommitFailed, s)
    end.
Proof.
  intros Hs Hd Hf. unfold SeedScript.seed_database. rewrite Hs, Hd.
  change (0 <? Z.of_nat (length (@nil DBLocation))) with false. cbv iota beta.
  cbn [items_of]. rewrite (prepare_all_ok kvss Hf). reflexivity.
Qed.

Lemma seed_script_commits_witness :
  SeedScript.seed_database (fun _ p => Some {| rows := [] |})
    (Doc (JObj [("locations"%string, JArr [JObj [("name"%string, JStr "A")]])]))
    empty_store = (SeedScript.Committed, {| rows := [] |}).
Proof.
  rewrite (seed_script_commits _ _ [[("name"%string, JStr "A")]]);
    [reflexivity | reflexivity | reflexivity | repeat constructor].
Defined.
